(** * KTL: kernel thread wrappers and interlocked primitives

    A shallow embedding of [include/atomic.hpp] and [include/thread.h],
    and the properties of their functions.

    - [Atomic]      the interlocked helpers of namespace [ktl::th];
    - [ThisThread]  [sleep_until] and [stall_until] of [ktl::this_thread];
    - [Thread]      the worker-thread engine and the concrete thread kinds. *)

From Stdlib Require Import ZArith Lia.
From stdpp Require Import base option list gmap.

Local Open Scope Z_scope.

(* ===================================================================== *)
(** * atomic.hpp                                                          *)
(* ===================================================================== *)

Module Atomic.

(** ** Memory

    The helpers act on storage supplied by the caller: a [bool&] or a
    [Ty* const*] names a cell.  A cell holds the integer stored in it, a
    [char] for a flag and a pointer-sized word for a pointer field.  Every
    store performed by an interlocked instruction is also appended to a
    journal, so that "wrote" and "did not write" can be told apart even
    when the stored value equals the old one. *)

Record memory := Memory {
  cells : gmap N Z;
  journal : list (N * Z)
}.

Definition store (l : N) (v : Z) (m : memory) : memory :=
  {| cells := <[l := v]> (cells m); journal := journal m ++ [(l, v)] |}.

(** [static_cast<char>(b)] and the conversion of a [char] result to [bool]. *)
Definition bool_to_char (b : bool) : Z := if b then 1 else 0.
Definition char_to_bool (c : Z) : bool := negb (c =? 0).

(** Contextual conversion of a pointer to [bool]. *)
Definition ptr_to_bool (p : Z) : bool := negb (p =? 0).

(** A plain read of a [bool] object. *)
Definition read_bool (l : N) (m : memory) : option bool :=
  char_to_bool <$> cells m !! l.

(** ** The compiler intrinsics

    [InterlockedExchange8], [InterlockedExchangePointer] and
    [InterlockedCompareExchangePointer] come from <ntddk.h>.  They are
    given here the behaviour their documentation states: the exchange
    stores the value and returns the previous content; the compare-exchange
    stores [exchange] when the content equals [comperand], performs no
    operation otherwise, and returns the initial content.  [None] stands
    for an address that names no cell. *)

Definition InterlockedExchange8 (target : N) (value : Z) (m : memory)
  : option (Z * memory) :=
  old ← cells m !! target; Some (old, store target value m).

Definition InterlockedExchangePointer (target : N) (value : Z) (m : memory)
  : option (Z * memory) :=
  old ← cells m !! target; Some (old, store target value m).

Definition InterlockedCompareExchangePointer
    (destination : N) (exchange comperand : Z) (m : memory)
  : option (Z * memory) :=
  old ← cells m !! destination;
  Some (old, if bool_decide (old = comperand)
             then store destination exchange m else m).

(** ** The helpers of namespace [ktl::th] *)

(** [bool interlocked_exchange(bool& target, bool new_value)] *)
Definition interlocked_exchange (target : N) (new_value : bool) (m : memory)
  : option (bool * memory) :=
  r ← InterlockedExchange8 target (bool_to_char new_value) m;
  Some (char_to_bool r.1, r.2).

(** [void interlocked_swap(bool& lhs, bool& rhs)]: [old_lhs] is read from
    [lhs]; the argument [rhs] of the first exchange is the value read from
    the flag [rhs]. *)
Definition interlocked_swap (lhs rhs : N) (m : memory) : option memory :=
  old_lhs ← read_bool lhs m;
  rhs_value ← read_bool rhs m;
  r1 ← interlocked_exchange lhs rhs_value m;
  r2 ← interlocked_exchange rhs old_lhs r1.2;
  Some r2.2.

(** [Ty* interlocked_exchange_pointer(Ty* const* ptr_place, Ty* new_ptr)] *)
Definition interlocked_exchange_pointer (ptr_place : N) (new_ptr : Z)
    (m : memory) : option (Z * memory) :=
  InterlockedExchangePointer ptr_place new_ptr m.

(** [Ty* interlocked_compare_exchange_pointer(Ty* const* ptr_place,
    Ty* new_ptr, Ty* expected)] *)
Definition interlocked_compare_exchange_pointer
    (ptr_place : N) (new_ptr expected : Z) (m : memory)
  : option (Z * memory) :=
  InterlockedCompareExchangePointer ptr_place new_ptr expected m.

(** [void interlocked_swap_pointer(Ty* const lhs, Ty* const rhs)].

    Both parameters are pointer VALUES: the function receives copies of the
    caller's two fields, not their addresses.  Its body calls
    [interlocked_exchange], whose only signature is [(bool&, bool)].  A
    [Ty* const] is not a [bool] object, so the [bool&] of each call can at
    most refer to a boolean temporary converted from the pointer (strictly,
    the call is ill-formed and an instantiation is rejected).  The
    temporary lives in storage of the call itself: [scratch] is that
    storage, one cell at address 0, which is gone when the call returns. *)
Definition scratch (b : bool) : memory :=
  {| cells := {[ 0%N := bool_to_char b ]}; journal := [] |}.

Definition exchange_on_temporary (target_value new_value : bool)
  : option bool :=
  r ← interlocked_exchange 0%N new_value (scratch target_value);
  Some r.1.

Definition interlocked_swap_pointer (lhs rhs : Z) (m : memory)
  : option memory :=
  let old_lhs := lhs in
  _ ← exchange_on_temporary (ptr_to_bool lhs) (ptr_to_bool rhs);
  _ ← exchange_on_temporary (ptr_to_bool rhs) (ptr_to_bool old_lhs);
  Some m.

(** A call [interlocked_swap_pointer(x.field, y.field)] on two handle
    fields stored at [lhs_field] and [rhs_field]: the arguments are the
    values read from the fields. *)
Definition swap_pointer_fields (lhs_field rhs_field : N) (m : memory)
  : option memory :=
  lhs ← cells m !! lhs_field;
  rhs ← cells m !! rhs_field;
  interlocked_swap_pointer lhs rhs m.

End Atomic.

(* ===================================================================== *)
(** * thread.h, namespace this_thread                                     *)
(* ===================================================================== *)

Module ThisThread.

(** The two primitives of the kernel that the helpers end in. *)
Inductive os_call :=
| KeDelayExecutionThread (interval : Z)
| KeStallExecutionProcessor (microseconds : Z).

(** [LARGE_INTEGER::QuadPart] is a signed 64-bit integer and
    [unsigned long] has 32 bits. *)
Definition to_int64 (z : Z) : Z := (z + 2 ^ 63) mod 2 ^ 64 - 2 ^ 63.
Definition to_unsigned_long (z : Z) : Z := z mod 2 ^ 32.

Section Chrono.

(** <chrono.hpp> is not part of the sources.  A time point and a duration
    are their tick counts; the two conversions of durations are left
    open. *)
Variable to_native_100ns_duration : Z -> Z.
Variable to_microseconds : Z -> Z.

(** The effect of a helper is the list of primitives it calls, in order. *)
Definition sleep_for (sleep_duration : Z) : list os_call :=
  let native_duration := to_native_100ns_duration sleep_duration in
  let interval := to_int64 (-1 * native_duration) in
  [KeDelayExecutionThread interval].

(** [now] is the value [Clock::now()] yields in the call. *)
Definition sleep_until (now sleep_time : Z) : list os_call :=
  if sleep_time <=? now then [] else sleep_for (sleep_time - now).

Definition stall_for (stall_duration : Z) : list os_call :=
  let us_duration := to_microseconds stall_duration in
  [KeStallExecutionProcessor (to_unsigned_long us_duration)].

Definition stall_until (now stall_time : Z) : list os_call :=
  if stall_time <=? now then [] else stall_for (stall_time - now).

End Chrono.

End ThisThread.

(* ===================================================================== *)
(** * thread.h, the worker-thread engine and the thread kinds             *)
(* ===================================================================== *)

Module Thread.

(** ** Constants of the kernel headers

    [irql_t] is the kernel's [KIRQL]; the levels and the status codes are
    the macros of <wdm.h> and <ntstatus.h> ([NTSTATUS] is a signed 32-bit
    integer, so 0xC0000144 is negative). *)
Definition PASSIVE_LEVEL : Z := 0.
Definition DISPATCH_LEVEL : Z := 2.
Definition STATUS_SUCCESS : Z := 0.
Definition STATUS_UNHANDLED_EXCEPTION : Z := 0xC0000144 - 2 ^ 32.

(** ** User callables

    What is thrown is either a [ktl::exception], which carries an
    [NTSTATUS] read by [code()], or an object of any other type.  A
    callable is known by an identifier and by what a call of it on given
    arguments does; the value it may return is discarded by
    [worker_thread::make_call]. *)
Inductive thrown :=
| ktl_exception (code : Z)
| foreign_object (tag : Z).

Inductive call_result :=
| returns
| throws (e : thrown).

Record callable := Callable {
  fn_id : Z;
  fn_body : list Z -> call_result
}.

(** ** The world of a spawn

    The packed-argument record [arg_tuple_t] lives on one of the two
    kernel heaps.  A block has a positive address; a pointer is an address
    or [nullptr] ([None]). *)
Inductive pool := paged_new | non_paged_new.

Record arg_tuple := ArgTuple {
  tuple_fn : callable;
  tuple_args : list Z
}.

Record block := Block {
  block_pool : pool;
  block_value : arg_tuple
}.

(** The template parameter [ConcreteThread] of [worker_thread]: the two
    classes that derive from an instance of it. *)
Inductive kind := system_thread | io_thread.

(** A [thread_routine_t] is the address of a trampoline
    [invoke_in_thread<ArgTuple, Indices...>] of [worker_thread<k>]; it is
    known by [k]. *)
Abbreviation thread_routine_t := kind (only parsing).

(** What a run leaves behind, in order. *)
Inductive event :=
| Allocate (p : pool) (a : positive)
| Deallocate (a : positive)
| CreateThreadImpl (start : thread_routine_t) (io_object : option Z)
    (raw_args : option positive)
| Invoke (fn : Z) (args : list Z)
| BeforeExit (k : kind) (status : option Z).

Record world := World {
  heap : gmap positive block;
  next : positive;
  trace : list event
}.

(** ** Computations

    A function either returns, or leaves by an exception, or ends the
    program ([fatal]: [std::terminate] for an exception that meets
    [noexcept], a failed assertion, the use of a dangling pointer). *)
Inductive outcome (A : Type) :=
| Done (a : A)
| Raised (e : thrown)
| Fatal.
Arguments Done {A} a.
Arguments Raised {A} e.
Arguments Fatal {A}.

Definition M (A : Type) : Type := world -> outcome A * world.

Definition ret {A} (a : A) : M A := fun w => (Done a, w).

Definition bind {A B} (m : M A) (f : A -> M B) : M B :=
  fun w =>
    match m w with
    | (Done a, w') => f a w'
    | (Raised e, w') => (Raised e, w')
    | (Fatal, w') => (Fatal, w')
    end.

#[global] Instance M_ret : MRet M := @ret.
#[global] Instance M_bind : MBind M := fun A B f m => bind m f.

Definition throw {A} (e : thrown) : M A := fun w => (Raised e, w).
Definition fatal {A} : M A := fun w => (Fatal, w).

(** [try { m }] with the exception, if any, handed to the handlers. *)
Definition try {A} (m : M A) : M (A + thrown) :=
  fun w =>
    match m w with
    | (Done a, w') => (Done (inl a), w')
    | (Raised e, w') => (Done (inr e), w')
    | (Fatal, w') => (Fatal, w')
    end.

(** A function declared [noexcept]. *)
Definition noexcept {A} (m : M A) : M A :=
  fun w =>
    match m w with
    | (Raised _, w') => (Fatal, w')
    | r => r
    end.

Definition emit (e : event) : M unit :=
  fun w => (Done tt, {| heap := heap w; next := next w;
                        trace := trace w ++ [e] |}).

(** ** Heap and [unique_ptr]

    <smart_pointer.hpp> and the placement forms of [new] are not part of
    the sources; they are the exclusive-ownership handle and the two
    allocators of the kernel, which are taken not to fail. *)
Definition new (p : pool) (v : arg_tuple) : M positive :=
  fun w =>
    let a := next w in
    (Done a, {| heap := <[a := Block p v]> (heap w);
                next := Pos.succ a;
                trace := trace w ++ [Allocate p a] |}).

Definition delete_ (a : positive) : M unit :=
  fun w => (Done tt, {| heap := delete a (heap w); next := next w;
                        trace := trace w ++ [Deallocate a] |}).

Definition dereference (p : option positive) : M arg_tuple :=
  fun w =>
    match p ≫= (fun a => heap w !! a) with
    | Some b => (Done (block_value b), w)
    | None => (Fatal, w)
    end.

(** A [unique_ptr] is the pointer it holds. *)
Definition unique_ptr := option positive.

Definition unique_ptr_destroy (u : unique_ptr) : M unit :=
  match u with
  | Some a => delete_ a
  | None => mret tt
  end.

Definition unique_ptr_reset (u : unique_ptr) (p : option positive)
  : M unique_ptr :=
  unique_ptr_destroy u;; mret p.

Definition unique_ptr_get (u : unique_ptr) : option positive := u.

(** [release()] yields the pointer and leaves the handle empty. *)
Definition unique_ptr_release (u : unique_ptr)
  : option positive * unique_ptr := (u, None).

(** ** [worker_thread<ConcreteThread>] *)

(** [worker_thread::make_call]: [forward<Fn>(fn)(forward<Types>(args)...)]. *)
Definition worker_thread_make_call (fn : callable) (args : list Z) : M unit :=
  emit (Invoke (fn_id fn) args);;
  match fn_body fn args with
  | returns => mret tt
  | throws e => throw e
  end.

(** [worker_thread::pack_fn_with_args] *)
Definition pack_fn_with_args (max_irql : Z) (fn : callable) (args : list Z)
  : M unique_ptr :=
  let packed_args : unique_ptr := None in
  if max_irql <? DISPATCH_LEVEL then
    p ← new paged_new (ArgTuple fn args);
    unique_ptr_reset packed_args (Some p)
  else
    p ← new non_paged_new (ArgTuple fn args);
    unique_ptr_reset packed_args (Some p).

(** ** The hooks of the concrete kinds *)

(** [system_thread::make_call] *)
Definition system_thread_make_call (fn : callable) (args : list Z) : M Z :=
  worker_thread_make_call fn args;;
  mret STATUS_SUCCESS.

(** [guarded_system_thread::make_call], declared [noexcept]; [MyBase] is
    [system_thread]. *)
Definition guarded_system_thread_make_call (fn : callable) (args : list Z)
  : M Z :=
  noexcept (
    let status := STATUS_SUCCESS in
    r ← try (system_thread_make_call fn args);
    match r with
    | inl _ => mret status
    | inr (ktl_exception code) => mret code
    | inr (foreign_object _) => mret STATUS_UNHANDLED_EXCEPTION
    end).

(** [accessor::make_call] is the [make_call] visible in [ConcreteThread]:
    [system_thread] declares its own, [io_thread] takes over the one of
    [worker_thread], which returns nothing. *)
Definition accessor_make_call (k : kind) (fn : callable) (args : list Z)
  : M (option Z) :=
  match k with
  | system_thread => st ← system_thread_make_call fn args; mret (Some st)
  | io_thread => worker_thread_make_call fn args;; mret None
  end.

(** Whether [invoke_result_t] is [void]. *)
Definition result_is_void (k : kind) : bool :=
  match k with
  | system_thread => false
  | io_thread => true
  end.

(** [system_thread::before_exit(NTSTATUS)] and [io_thread::before_exit()]
    are declared only; a call of the hook is recorded with the value it
    receives. *)
Definition accessor_before_exit (k : kind) (status : option Z) : M unit :=
  emit (BeforeExit k status).

(** ** The trampoline

    [invoke_with_unpacked_args] takes the guard [unique_ptr<ArgTuple>] by
    value.  When the lifetime of a parameter ends is left to the
    implementation: at the return of the function (the convention of the
    compiler the kernel headers are written for), or at the end of the full
    expression that contains the call. *)
Inductive parameter_lifetime := until_return | until_full_expression.

Section Trampoline.

Variable lifetime : parameter_lifetime.

Definition at_return (args_guard : unique_ptr) : M unit :=
  match lifetime with
  | until_return => unique_ptr_destroy args_guard
  | until_full_expression => mret tt
  end.

Definition at_full_expression_end (args_guard : unique_ptr) : M unit :=
  match lifetime with
  | until_return => mret tt
  | until_full_expression => unique_ptr_destroy args_guard
  end.

(** [worker_thread::invoke_with_unpacked_args], declared [noexcept] *)
Definition invoke_with_unpacked_args (k : kind) (args_guard : unique_ptr)
  : M (option Z) :=
  noexcept (
    t ← dereference (unique_ptr_get args_guard);
    r ← accessor_make_call k (tuple_fn t) (tuple_args t);
    at_return args_guard;;
    mret r).

(** [worker_thread::invoke_in_thread], declared [noexcept] *)
Definition invoke_in_thread (k : kind) (raw_args : option positive)
  : M unit :=
  noexcept (
    let args_ptr := raw_args in
    if negb (result_is_void k) then
      r ← invoke_with_unpacked_args k args_ptr;
      accessor_before_exit k r;;
      at_full_expression_end args_ptr
    else
      invoke_with_unpacked_args k args_ptr;;
      at_full_expression_end args_ptr;;
      accessor_before_exit k None).

End Trampoline.

(** [worker_thread::get_thread_routine] of [worker_thread<k>] *)
Definition get_thread_routine (k : kind) : thread_routine_t := k.

(** The routine run on a record, as the new thread does. *)
Definition run_thread_routine (lifetime : parameter_lifetime)
    (start : thread_routine_t) (raw_args : option positive) : M unit :=
  invoke_in_thread lifetime start raw_args.

(** ** Spawning

    [create_thread_impl] (both kinds) is declared only.  Whatever it does
    with the routine and the record, a call of it ends in one of two ways,
    and [create_thread] is read for both; the call itself is recorded. *)
Inductive impl_behaviour :=
| impl_returns (thread_obj : Z)
| impl_throws (e : thrown).

Section Spawn.

Variable impl : impl_behaviour.

Definition create_thread_impl (io_object : option Z)
    (start : thread_routine_t) (raw_args : option positive) : M Z :=
  emit (CreateThreadImpl start io_object raw_args);;
  match impl with
  | impl_returns thread_obj => mret thread_obj
  | impl_throws e => throw e
  end.

(** [system_thread::create_thread].  [packed_args] is a local
    [unique_ptr]: it is destroyed when the function is left, by the
    [return] as well as by an exception that passes through. *)
Definition system_thread_create_thread (max_irql : Z) (fn : callable)
    (args : list Z) : M Z :=
  packed_args ← pack_fn_with_args max_irql fn args;
  r ← try (create_thread_impl None (get_thread_routine system_thread)
             (unique_ptr_get packed_args));
  match r with
  | inl thread_obj =>
      let packed_args := (unique_ptr_release packed_args).2 in
      unique_ptr_destroy packed_args;;
      mret thread_obj
  | inr e =>
      unique_ptr_destroy packed_args;;
      throw e
  end.

(** [io_thread::create_thread] *)
Definition io_thread_create_thread (io_obj : Z) (max_irql : Z)
    (fn : callable) (args : list Z) : M Z :=
  packed_args ← pack_fn_with_args max_irql fn args;
  r ← try (create_thread_impl (Some io_obj) (get_thread_routine io_thread)
             (unique_ptr_get packed_args));
  match r with
  | inl thread_obj =>
      let packed_args := (unique_ptr_release packed_args).2 in
      unique_ptr_destroy packed_args;;
      mret thread_obj
  | inr e =>
      unique_ptr_destroy packed_args;;
      throw e
  end.

(** ** The wrapper *)
Record thread_base := ThreadBase { m_thread : Z }.

Definition native_handle (this : thread_base) : Z := m_thread this.

(** A pointer used as a condition. *)
Definition ptr_nonnull (p : Z) : bool := negb (p =? 0).

(** Modelled from the spec: [thread_base::thread_base(internal_object_type)]
    is declared only; the spec has it take ownership of the reference it is
    given. *)
Definition thread_base_from (thread_obj : Z) : thread_base :=
  {| m_thread := thread_obj |}.

(** Modelled from the spec: <assert.hpp> is not part of the sources; the
    spec has the assertion facility raise a fatal condition. *)
Definition assert_with_msg (cond : bool) : M unit :=
  if cond then mret tt else fatal.

(** [system_thread(irql_t max_irql, Fn&& fn, Types&&... args)] *)
Definition system_thread_with_irql (max_irql : Z) (fn : callable)
    (args : list Z) : M thread_base :=
  thread_obj ← system_thread_create_thread max_irql fn args;
  let this := thread_base_from thread_obj in
  assert_with_msg (ptr_nonnull (native_handle this));;
  mret this.

(** [system_thread(Fn&& fn, Types&&... args)] *)
Definition system_thread_default (fn : callable) (args : list Z)
  : M thread_base :=
  thread_obj ← system_thread_create_thread PASSIVE_LEVEL fn args;
  let this := thread_base_from thread_obj in
  assert_with_msg (ptr_nonnull (native_handle this));;
  mret this.

(** [io_thread(io_object io_obj, irql_t max_irql, Fn&& fn,
    Types&&... args)] *)
Definition io_thread_with_irql (io_obj : Z) (max_irql : Z) (fn : callable)
    (args : list Z) : M thread_base :=
  thread_obj ← io_thread_create_thread io_obj max_irql fn args;
  let this := thread_base_from thread_obj in
  assert_with_msg (ptr_nonnull (native_handle this));;
  mret this.

(** [io_thread(io_object io_obj, Fn&& fn, Types&&... args)] *)
Definition io_thread_default (io_obj : Z) (fn : callable) (args : list Z)
  : M thread_base :=
  thread_obj ← io_thread_create_thread io_obj PASSIVE_LEVEL fn args;
  let this := thread_base_from thread_obj in
  assert_with_msg (ptr_nonnull (native_handle this));;
  mret this.

End Spawn.

(** The pool [pack_fn_with_args] takes the record from. *)
Definition pool_for (max_irql : Z) : pool :=
  if max_irql <? DISPATCH_LEVEL then paged_new else non_paged_new.

(** ** Reading a trace *)

#[global] Instance pool_eq_dec : EqDecision pool.
Proof. solve_decision. Defined.
#[global] Instance kind_eq_dec : EqDecision kind.
Proof. solve_decision. Defined.
#[global] Instance event_eq_dec : EqDecision event.
Proof. solve_decision. Defined.

(** The events a run added to the trace of the world it started in. *)
Definition events_since (w w' : world) : list event :=
  drop (length (trace w)) (trace w').

(** How often the block at [a] was freed. *)
Definition deallocations (a : positive) (l : list event) : nat :=
  length (filter (fun e => e = Deallocate a) l).

Definition is_allocation (e : event) : bool :=
  match e with Allocate _ _ => true | _ => false end.

(** Position of the first occurrence of an event. *)
Fixpoint index_of (e : event) (l : list event) : option nat :=
  match l with
  | [] => None
  | x :: l' => if decide (x = e) then Some 0%nat else S <$> index_of e l'
  end.

(** Both events occur, the first occurrence of [e1] before that of [e2]. *)
Definition occurs_before (e1 e2 : event) (l : list event) : bool :=
  match index_of e1 l, index_of e2 l with
  | Some i, Some j => (i <? j)%nat
  | _, _ => false
  end.

(** ** Closed forms

    The two steps of a constructor written out as worlds, for the proofs;
    the lemmas [*_run] show that the constructors compute them. *)

(** What a spawn leaves, by the way [create_thread_impl] ends. *)
Definition spawned (k : kind) (io_object : option Z) (impl : impl_behaviour)
    (max_irql : Z) (fn : callable) (args : list Z) (w : world)
  : outcome Z * world :=
  let a := next w in
  let b := Block (pool_for max_irql) (ArgTuple fn args) in
  match impl with
  | impl_returns thread_obj =>
      (Done thread_obj,
       {| heap := <[a := b]> (heap w);
          next := Pos.succ a;
          trace := trace w ++ [Allocate (pool_for max_irql) a;
                               CreateThreadImpl k io_object (Some a)] |})
  | impl_throws e =>
      (Raised e,
       {| heap := delete a (<[a := b]> (heap w));
          next := Pos.succ a;
          trace := trace w ++ [Allocate (pool_for max_irql) a;
                               CreateThreadImpl k io_object (Some a);
                               Deallocate a] |})
  end.

(** The part of a constructor after [create_thread]: the base is built
    from the object and the handle is asserted. *)
Definition constructed (r : outcome Z * world) : outcome thread_base * world :=
  match r with
  | (Done thread_obj, w') =>
      if ptr_nonnull thread_obj
      then (Done (thread_base_from thread_obj), w')
      else (Fatal, w')
  | (Raised e, w') => (Raised e, w')
  | (Fatal, w') => (Fatal, w')
  end.

(** ** Who frees the record of a spawn

    [w] is the world the constructor was called in, so that [next w] is the
    address of the record, and [r] what the call yields. *)

(** The spawning call freed the record, once, and left by the exception
    [e]. *)
Definition freed_by_spawn (w : world) (r : outcome thread_base * world)
    (e : thrown) : Prop :=
  r.1 = Raised e
  /\ deallocations (next w) (events_since w r.2) = 1%nat
  /\ heap r.2 !! next w = None.

(** The spawning call freed nothing and the record is still allocated. *)
Definition handed_to_thread (w : world) (r : outcome thread_base * world)
    (t : arg_tuple) : Prop :=
  deallocations (next w) (events_since w r.2) = 0%nat
  /\ exists p, heap r.2 !! next w = Some (Block p t).

(** The reading under which a failed spawn both frees the record once and
    yields a wrapper that holds no native reference. *)
Definition failed_spawn_as_worded (w : world)
    (r : outcome thread_base * world) : Prop :=
  (exists this, r.1 = Done this /\ native_handle this = 0)
  /\ deallocations (next w) (events_since w r.2) = 1%nat
  /\ heap r.2 !! next w = None.

(** ** [guarded_system_thread]

    The class declares no constructor of its own: [using MyBase::MyBase]
    makes the constructors of [system_thread] its constructors, and a
    [guarded_system_thread] is built by running them. *)
Definition guarded_system_thread_with_irql (impl : impl_behaviour)
    (max_irql : Z) (fn : callable) (args : list Z) : M thread_base :=
  system_thread_with_irql impl max_irql fn args.

Definition guarded_system_thread_default (impl : impl_behaviour)
    (fn : callable) (args : list Z) : M thread_base :=
  system_thread_default impl fn args.

(** Events that only the new thread produces. *)
Definition is_thread_event (e : event) : bool :=
  match e with
  | Invoke _ _ | BeforeExit _ _ => true
  | _ => false
  end.

(** The events of a trampoline whose callable returns, by kind and by
    the lifetime of the guard. *)
Definition trampoline_events (lifetime : parameter_lifetime) (k : kind)
    (a : positive) (fn : callable) (args : list Z) : list event :=
  match k, lifetime with
  | io_thread, _ =>
      [Invoke (fn_id fn) args; Deallocate a; BeforeExit io_thread None]
  | system_thread, until_return =>
      [Invoke (fn_id fn) args; Deallocate a;
       BeforeExit system_thread (Some STATUS_SUCCESS)]
  | system_thread, until_full_expression =>
      [Invoke (fn_id fn) args;
       BeforeExit system_thread (Some STATUS_SUCCESS); Deallocate a]
  end.

(** The reading under which the trampoline destroys the record at [a]
    after it has called [before_exit] with [st]. *)
Definition destroyed_after_before_exit (k : kind) (st : option Z)
    (a : positive) (l : list event) : Prop :=
  occurs_before (BeforeExit k st) (Deallocate a) l = true.

End Thread.

(* ===================================================================== *)
(** * Properties of atomic.hpp                                            *)
(* ===================================================================== *)

Section AtomicFacts.
Import Atomic.

Lemma char_to_bool_to_char (b : bool) : char_to_bool (bool_to_char b) = b.
Proof. by destruct b. Qed.

Lemma read_bool_store_eq (l : N) (b : bool) (m : memory) :
  read_bool l (store l (bool_to_char b) m) = Some b.
Proof.
  unfold read_bool, store; simpl.
  by rewrite lookup_insert_eq; simpl; rewrite char_to_bool_to_char.
Qed.

Lemma read_bool_store_ne (l l' : N) (v : Z) (m : memory) :
  l <> l' -> read_bool l' (store l v m) = read_bool l' m.
Proof.
  intros Hne. unfold read_bool, store; simpl.
  by rewrite lookup_insert_ne.
Qed.

(** The exchange on a flag that can be read: what it returns and the
    memory it leaves. *)
Lemma interlocked_exchange_read (target : N) (old new_value : bool)
    (m : memory) :
  read_bool target m = Some old ->
  interlocked_exchange target new_value m
  = Some (old, store target (bool_to_char new_value) m).
Proof.
  unfold read_bool, interlocked_exchange, InterlockedExchange8.
  destruct (cells m !! target) as [c|] eqn:Hc; simpl; [|done].
  by intros [= <-].
Qed.

(** C7: for a flag that holds [v0] and any [v1], [interlocked_exchange]
    returns [v0] and leaves the flag holding [v1]; the one cell written is
    the flag. *)
Theorem interlocked_exchange_returns_previous
    (flag : N) (v0 v1 : bool) (m : memory) :
  cells m !! flag = Some (bool_to_char v0) ->
  exists m',
    interlocked_exchange flag v1 m = Some (v0, m')
    /\ cells m' !! flag = Some (bool_to_char v1)
    /\ read_bool flag m' = Some v1
    /\ cells m' = <[flag := bool_to_char v1]> (cells m).
Proof.
  intros Hflag.
  exists (store flag (bool_to_char v1) m).
  split; [|split; [|split]].
  - apply interlocked_exchange_read.
    unfold read_bool. by rewrite Hflag; simpl; rewrite char_to_bool_to_char.
  - simpl. apply lookup_insert_eq.
  - apply read_bool_store_eq.
  - reflexivity.
Qed.

Lemma interlocked_exchange_returns_previous_witness :
  let m := {| cells := {[ 5%N := 1 ]}; journal := [] |} in
  cells m !! 5%N = Some (bool_to_char true)
  /\ exists m',
       interlocked_exchange 5%N false m = Some (true, m')
       /\ cells m' !! 5%N = Some (bool_to_char false)
       /\ read_bool 5%N m' = Some false
       /\ cells m' = <[5%N := bool_to_char false]> (cells m).
Proof.
  split; [reflexivity|].
  apply (interlocked_exchange_returns_previous 5%N true false).
  reflexivity.
Defined.

(** C8: for two flags holding [x] and [y], an uninterleaved
    [interlocked_swap] leaves [lhs] holding [y] and [rhs] holding [x]; it
    is made of two exchanges, one store to each flag. *)
Theorem interlocked_swap_exchanges_flags
    (lhs rhs : N) (x y : bool) (m : memory) :
  read_bool lhs m = Some x ->
  read_bool rhs m = Some y ->
  exists m',
    interlocked_swap lhs rhs m = Some m'
    /\ read_bool lhs m' = Some y
    /\ read_bool rhs m' = Some x
    /\ journal m' = journal m ++ [(lhs, bool_to_char y); (rhs, bool_to_char x)].
Proof.
  intros Hl Hr.
  set (m1 := store lhs (bool_to_char y) m).
  assert (Hr1 : read_bool rhs m1 = Some y).
  { destruct (decide (lhs = rhs)) as [->|Hne].
    - apply read_bool_store_eq.
    - unfold m1. by rewrite read_bool_store_ne. }
  exists (store rhs (bool_to_char x) m1).
  split; [|split; [|split]].
  - unfold interlocked_swap. rewrite Hl, Hr.
    cbn [mbind option_bind].
    rewrite (interlocked_exchange_read lhs x y m Hl).
    cbn [mbind option_bind snd]. fold m1.
    by rewrite (interlocked_exchange_read rhs y x m1 Hr1).
  - destruct (decide (lhs = rhs)) as [->|Hne].
    + rewrite read_bool_store_eq. congruence.
    + rewrite read_bool_store_ne by done. apply read_bool_store_eq.
  - apply read_bool_store_eq.
  - unfold m1, store; simpl. by rewrite <- app_assoc.
Qed.

Lemma interlocked_swap_exchanges_flags_witness :
  let m := {| cells := {[ 1%N := 1; 2%N := 0 ]}; journal := [] |} in
  read_bool 1%N m = Some true /\ read_bool 2%N m = Some false
  /\ exists m',
       interlocked_swap 1%N 2%N m = Some m'
       /\ read_bool 1%N m' = Some false
       /\ read_bool 2%N m' = Some true
       /\ journal m' = journal m ++ [(1%N, bool_to_char false);
                                     (2%N, bool_to_char true)].
Proof.
  split; [reflexivity|]. split; [reflexivity|].
  apply (interlocked_swap_exchanges_flags 1%N 2%N true false);
    reflexivity.
Defined.

Lemma journal_not_extended (m : memory) (entry : N * Z) :
  journal m <> journal m ++ [entry].
Proof.
  intros Heq. apply (f_equal length) in Heq.
  rewrite length_app in Heq. simpl in Heq. lia.
Qed.

(** C6: for a slot holding [pre], [interlocked_compare_exchange_pointer]
    returns [pre] in every case; it stores [new] into the slot if and only
    if [pre] equals [expected], and leaves the memory as it was otherwise. *)
Theorem compare_exchange_pointer_is_cas
    (slot : N) (new expected pre : Z) (m : memory) :
  cells m !! slot = Some pre ->
  exists m',
    interlocked_compare_exchange_pointer slot new expected m = Some (pre, m')
    /\ (journal m' = journal m ++ [(slot, new)] <-> pre = expected)
    /\ (pre = expected -> cells m' = <[slot := new]> (cells m))
    /\ (pre <> expected -> m' = m).
Proof.
  intros Hslot.
  unfold interlocked_compare_exchange_pointer,
    InterlockedCompareExchangePointer.
  rewrite Hslot; cbn [mbind option_bind].
  case_bool_decide as Heq.
  - exists (store slot new m). repeat split; try done.
  - exists m. repeat split; try done.
    intros Hj. by apply journal_not_extended in Hj.
Qed.

Lemma compare_exchange_pointer_is_cas_witness :
  let m := {| cells := {[ 8%N := 4096 ]}; journal := [] |} in
  cells m !! 8%N = Some 4096
  /\ exists m',
       interlocked_compare_exchange_pointer 8%N 8192 4096 m = Some (4096, m')
       /\ (journal m' = journal m ++ [(8%N, 8192)] <-> 4096 = 4096)
       /\ (4096 = 4096 -> cells m' = <[8%N := 8192]> (cells m))
       /\ (4096 <> 4096 -> m' = m).
Proof.
  split; [reflexivity|].
  apply (compare_exchange_pointer_is_cas 8%N 8192 4096 4096).
  reflexivity.
Defined.

(** The same helper on a slot whose content differs from [expected]. *)
Example compare_exchange_pointer_mismatch :
  let m := {| cells := {[ 8%N := 4096 ]}; journal := [] |} in
  interlocked_compare_exchange_pointer 8%N 8192 12288 m = Some (4096, m).
Proof. reflexivity. Qed.

(** A call of [interlocked_swap_pointer] returns the memory it was given:
    its exchanges act on temporaries. *)
Lemma interlocked_swap_pointer_inert (lhs rhs : Z) (m : memory) :
  interlocked_swap_pointer lhs rhs m = Some m.
Proof. reflexivity. Qed.

(** C3: on two handle fields holding the distinct pointers 0x1000 and
    0x2000, [interlocked_swap_pointer] leaves each field with its own prior
    value, not the other's, and performs no store to either. *)
Theorem interlocked_swap_pointer_leaves_fields :
  let m := {| cells := {[ 1%N := 0x1000; 2%N := 0x2000 ]}; journal := [] |} in
  exists m',
    swap_pointer_fields 1%N 2%N m = Some m'
    /\ cells m' !! 1%N = Some 0x1000
    /\ cells m' !! 2%N = Some 0x2000
    /\ cells m' !! 1%N <> Some 0x2000
    /\ journal m' = [].
Proof.
  eexists. split; [reflexivity|].
  repeat split; try reflexivity. discriminate.
Qed.

End AtomicFacts.

(* ===================================================================== *)
(** * Properties of this_thread                                           *)
(* ===================================================================== *)

Section ThisThreadFacts.
Import ThisThread.

Variable to_native_100ns_duration : Z -> Z.
Variable to_microseconds : Z -> Z.

(** C10: for a time point that is not after [now], [sleep_until] and
    [stall_until] call no primitive of the kernel; for a time point that is
    strictly later they wait once, [sleep_for] respectively [stall_for] on
    the remaining duration [target - now]. *)
Theorem until_waits_only_for_future (now target : Z) :
  (target <= now ->
     sleep_until to_native_100ns_duration now target = []
     /\ stall_until to_microseconds now target = [])
  /\ (now < target ->
     sleep_until to_native_100ns_duration now target
       = sleep_for to_native_100ns_duration (target - now)
     /\ stall_until to_microseconds now target
       = stall_for to_microseconds (target - now)
     /\ length (sleep_until to_native_100ns_duration now target) = 1%nat
     /\ length (stall_until to_microseconds now target) = 1%nat).
Proof.
  unfold sleep_until, stall_until. split; intros Hcmp.
  - by rewrite (proj2 (Z.leb_le target now) Hcmp).
  - by rewrite (proj2 (Z.leb_gt target now) Hcmp).
Qed.

End ThisThreadFacts.

Lemma until_waits_only_for_future_witness :
  (7 <= 10 /\
     ThisThread.sleep_until (fun d => 10 * d) 10 7 = []
     /\ ThisThread.stall_until (fun d => d) 10 7 = [])
  /\ (10 < 12 /\
     ThisThread.sleep_until (fun d => 10 * d) 10 12
       = [ThisThread.KeDelayExecutionThread (-20)]
     /\ ThisThread.stall_until (fun d => d) 10 12
       = [ThisThread.KeStallExecutionProcessor 2]).
Proof.
  split.
  - split; [lia|].
    apply (proj1 (until_waits_only_for_future
                    (fun d => 10 * d) (fun d => d) 10 7)); lia.
  - split; [lia|].
    destruct (proj2 (until_waits_only_for_future
                       (fun d => 10 * d) (fun d => d) 10 12)) as (Hs & Ht & _).
    + lia.
    + split; [rewrite Hs | rewrite Ht]; reflexivity.
Defined.

(* ===================================================================== *)
(** * Properties of the worker-thread engine                              *)
(* ===================================================================== *)

Section ThreadFacts.
Import Thread.

(** Unfolding of the computations down to functions on worlds. *)
Ltac run_spawn :=
  unfold system_thread_with_irql, system_thread_default,
    io_thread_with_irql, io_thread_default,
    system_thread_create_thread, io_thread_create_thread,
    create_thread_impl, get_thread_routine, pack_fn_with_args,
    assert_with_msg,
    unique_ptr_reset, unique_ptr_destroy, unique_ptr_release,
    unique_ptr_get, new, delete_, emit, try, throw, fatal,
    mbind, M_bind, bind, mret, M_ret, ret;
  cbn.

Ltac run_trampoline :=
  unfold invoke_in_thread, invoke_with_unpacked_args, at_return,
    at_full_expression_end, accessor_before_exit, accessor_make_call,
    guarded_system_thread_make_call, system_thread_make_call,
    worker_thread_make_call, dereference, noexcept,
    unique_ptr_destroy, unique_ptr_get, delete_, emit, try, throw, fatal,
    mbind, M_bind, bind, mret, M_ret, ret;
  cbn.

Lemma pool_for_paged (max_irql : Z) :
  pool_for max_irql = paged_new <-> max_irql < DISPATCH_LEVEL.
Proof.
  unfold pool_for. destruct (Z.ltb_spec max_irql DISPATCH_LEVEL); split;
    intros; try done; lia.
Qed.

Lemma pool_for_non_paged (max_irql : Z) :
  pool_for max_irql = non_paged_new <-> DISPATCH_LEVEL <= max_irql.
Proof.
  unfold pool_for. destruct (Z.ltb_spec max_irql DISPATCH_LEVEL); split;
    intros; try done; lia.
Qed.

(** [pack_fn_with_args] performs one allocation, from [pool_for max_irql],
    and hands back the fresh address. *)
Lemma pack_fn_with_args_run (max_irql : Z) (fn : callable) (args : list Z)
    (w : world) :
  pack_fn_with_args max_irql fn args w
  = (Done (Some (next w)),
     {| heap := <[next w := Block (pool_for max_irql) (ArgTuple fn args)]>
                  (heap w);
        next := Pos.succ (next w);
        trace := trace w ++ [Allocate (pool_for max_irql) (next w)] |}).
Proof.
  unfold pool_for. run_spawn.
  by destruct (max_irql <? DISPATCH_LEVEL).
Qed.

Lemma system_thread_create_thread_run (impl : impl_behaviour)
    (max_irql : Z) (fn : callable) (args : list Z) (w : world) :
  system_thread_create_thread impl max_irql fn args w
  = spawned system_thread None impl max_irql fn args w.
Proof.
  unfold system_thread_create_thread.
  unfold mbind at 1, M_bind, bind. rewrite pack_fn_with_args_run.
  unfold spawned. run_spawn.
  destruct impl; cbn; by rewrite <- !app_assoc.
Qed.

Lemma io_thread_create_thread_run (impl : impl_behaviour)
    (io_obj max_irql : Z) (fn : callable) (args : list Z) (w : world) :
  io_thread_create_thread impl io_obj max_irql fn args w
  = spawned io_thread (Some io_obj) impl max_irql fn args w.
Proof.
  unfold io_thread_create_thread.
  unfold mbind at 1, M_bind, bind. rewrite pack_fn_with_args_run.
  unfold spawned. run_spawn.
  destruct impl; cbn; by rewrite <- !app_assoc.
Qed.

Lemma system_thread_with_irql_run (impl : impl_behaviour)
    (max_irql : Z) (fn : callable) (args : list Z) (w : world) :
  system_thread_with_irql impl max_irql fn args w
  = constructed (spawned system_thread None impl max_irql fn args w).
Proof.
  unfold system_thread_with_irql.
  unfold mbind at 1, M_bind, bind. rewrite system_thread_create_thread_run.
  unfold spawned, constructed. destruct impl as [thread_obj|e]; [|done].
  run_spawn. by destruct (ptr_nonnull thread_obj).
Qed.

Lemma io_thread_with_irql_run (impl : impl_behaviour)
    (io_obj max_irql : Z) (fn : callable) (args : list Z) (w : world) :
  io_thread_with_irql impl io_obj max_irql fn args w
  = constructed (spawned io_thread (Some io_obj) impl max_irql fn args w).
Proof.
  unfold io_thread_with_irql.
  unfold mbind at 1, M_bind, bind. rewrite io_thread_create_thread_run.
  unfold spawned, constructed. destruct impl as [thread_obj|e]; [|done].
  run_spawn. by destruct (ptr_nonnull thread_obj).
Qed.

Lemma constructed_world (r : outcome Z * world) : (constructed r).2 = r.2.
Proof.
  destruct r as [[thread_obj|e|] w']; try done.
  simpl. by destruct (ptr_nonnull thread_obj).
Qed.

Lemma spawned_trace (k : kind) (io_object : option Z) (impl : impl_behaviour)
    (max_irql : Z) (fn : callable) (args : list Z) (w : world) :
  exists rest,
    trace (spawned k io_object impl max_irql fn args w).2
    = trace w ++ Allocate (pool_for max_irql) (next w)
                 :: CreateThreadImpl k io_object (Some (next w)) :: rest
    /\ filter is_allocation rest = [].
Proof.
  unfold spawned. destruct impl as [thread_obj|e]; cbn.
  - by exists [].
  - by exists [Deallocate (next w)].
Qed.

(** C1: in a spawn through either hinted constructor the record is
    allocated once, before [create_thread_impl] is called (no native object
    exists earlier); the pool is the paged one if and only if the hint is
    below [DISPATCH_LEVEL], and the non-paged one if and only if the hint
    is at or above it.  This holds however [create_thread_impl] ends. *)
Theorem pool_chosen_by_hint (impl : impl_behaviour) (io_obj max_irql : Z)
    (fn : callable) (args : list Z) (w : world) :
  exists p rest_system rest_io,
    trace (system_thread_with_irql impl max_irql fn args w).2
    = trace w ++ Allocate p (next w)
                 :: CreateThreadImpl system_thread None (Some (next w))
                 :: rest_system
    /\ trace (io_thread_with_irql impl io_obj max_irql fn args w).2
       = trace w ++ Allocate p (next w)
                    :: CreateThreadImpl io_thread (Some io_obj) (Some (next w))
                    :: rest_io
    /\ filter is_allocation rest_system = []
    /\ filter is_allocation rest_io = []
    /\ (p = paged_new <-> max_irql < DISPATCH_LEVEL)
    /\ (p = non_paged_new <-> DISPATCH_LEVEL <= max_irql).
Proof.
  destruct (spawned_trace system_thread None impl max_irql fn args w)
    as (rest_system & Hs & Hfs).
  destruct (spawned_trace io_thread (Some io_obj) impl max_irql fn args w)
    as (rest_io & Hi & Hfi).
  exists (pool_for max_irql), rest_system, rest_io.
  rewrite system_thread_with_irql_run, io_thread_with_irql_run.
  rewrite !constructed_world.
  repeat split; try done;
    try apply pool_for_paged; try apply pool_for_non_paged.
Qed.

(** A hint at [DISPATCH_LEVEL] and one just below it. *)
Example pool_at_dispatch_level :
  let w := World ∅ 1 [] in
  let fn := Callable 7 (fun _ => returns) in
  trace (system_thread_with_irql (impl_returns 99) DISPATCH_LEVEL fn [3] w).2
  = [Allocate non_paged_new 1;
     CreateThreadImpl system_thread None (Some 1%positive)]
  /\ trace (system_thread_with_irql (impl_returns 99) (DISPATCH_LEVEL - 1)
              fn [3] w).2
     = [Allocate paged_new 1;
        CreateThreadImpl system_thread None (Some 1%positive)].
Proof. split; reflexivity. Qed.

(** C9: a constructor without hint yields what the hinted constructor
    yields for [PASSIVE_LEVEL], in every world and however
    [create_thread_impl] ends; the record then comes from the paged pool. *)
Theorem default_constructors_use_passive_level (impl : impl_behaviour)
    (io_obj : Z) (fn : callable) (args : list Z) (w : world) :
  system_thread_default impl fn args w
  = system_thread_with_irql impl PASSIVE_LEVEL fn args w
  /\ io_thread_default impl io_obj fn args w
     = io_thread_with_irql impl io_obj PASSIVE_LEVEL fn args w
  /\ (exists rest,
        trace (system_thread_default impl fn args w).2
        = trace w ++ Allocate paged_new (next w) :: rest
        /\ filter is_allocation rest = [])
  /\ (exists rest,
        trace (io_thread_default impl io_obj fn args w).2
        = trace w ++ Allocate paged_new (next w) :: rest
        /\ filter is_allocation rest = []).
Proof.
  assert (Hs : system_thread_default impl fn args w
               = system_thread_with_irql impl PASSIVE_LEVEL fn args w)
    by reflexivity.
  assert (Hi : io_thread_default impl io_obj fn args w
               = io_thread_with_irql impl io_obj PASSIVE_LEVEL fn args w)
    by reflexivity.
  split; [done|]. split; [done|].
  rewrite Hs, Hi, system_thread_with_irql_run, io_thread_with_irql_run.
  rewrite !constructed_world.
  split.
  - destruct (spawned_trace system_thread None impl PASSIVE_LEVEL fn args w)
      as (rest & Ht & Hf).
    exists (CreateThreadImpl system_thread None (Some (next w)) :: rest).
    by rewrite Ht.
  - destruct (spawned_trace io_thread (Some io_obj) impl PASSIVE_LEVEL
                fn args w) as (rest & Ht & Hf).
    exists (CreateThreadImpl io_thread (Some io_obj) (Some (next w)) :: rest).
    by rewrite Ht.
Qed.

(** [guarded_system_thread::make_call], called on its own, always returns
    a status and never lets an exception out: [STATUS_SUCCESS] when the
    callable
    returns, the code carried by a [ktl::exception] the callable throws,
    and [STATUS_UNHANDLED_EXCEPTION] for anything else thrown.  The
    callable is invoked once, on the arguments given, and nothing else
    happens. *)
Theorem guarded_make_call_absorbs (fn : callable) (args : list Z)
    (w : world) :
  guarded_system_thread_make_call fn args w
  = (Done match fn_body fn args with
          | returns => STATUS_SUCCESS
          | throws (ktl_exception code) => code
          | throws (foreign_object _) => STATUS_UNHANDLED_EXCEPTION
          end,
     {| heap := heap w; next := next w;
        trace := trace w ++ [Invoke (fn_id fn) args] |}).
Proof.
  run_trampoline.
  destruct (fn_body fn args) as [|[code|tag]]; reflexivity.
Qed.

(** The plain [system_thread::make_call] on a callable that throws: the
    exception leaves the function. *)
Example system_make_call_propagates :
  (system_thread_make_call
     (Callable 8 (fun _ => throws (ktl_exception 5))) [] (World ∅ 1 [])).1
  = Raised (ktl_exception 5)
  /\ (guarded_system_thread_make_call
        (Callable 8 (fun _ => throws (ktl_exception 5))) [] (World ∅ 1 [])).1
     = Done 5
  /\ (guarded_system_thread_make_call
        (Callable 9 (fun _ => throws (foreign_object 0))) [] (World ∅ 1 [])).1
     = Done STATUS_UNHANDLED_EXCEPTION.
Proof. repeat split. Qed.

Lemma events_since_app (w : world) (h : gmap positive block)
    (n : positive) (l : list event) :
  events_since w {| heap := h; next := n; trace := trace w ++ l |} = l.
Proof. unfold events_since; simpl. apply drop_app_length. Qed.

Lemma deallocations_of_failed_spawn (a : positive) (p : pool) (k : kind)
    (io_object : option Z) :
  deallocations a [Allocate p a; CreateThreadImpl k io_object (Some a);
                   Deallocate a] = 1%nat.
Proof.
  unfold deallocations. rewrite !filter_cons, filter_nil.
  repeat case_decide; done.
Qed.

Lemma deallocations_of_spawn (a : positive) (p : pool) (k : kind)
    (io_object : option Z) :
  deallocations a [Allocate p a; CreateThreadImpl k io_object (Some a)]
  = 0%nat.
Proof.
  unfold deallocations. rewrite !filter_cons, filter_nil.
  repeat case_decide; done.
Qed.

Lemma spawned_throws (k : kind) (io_object : option Z) (e : thrown)
    (max_irql : Z) (fn : callable) (args : list Z) (w : world) :
  freed_by_spawn w
    (constructed (spawned k io_object (impl_throws e) max_irql fn args w)) e.
Proof.
  unfold freed_by_spawn, spawned, constructed; cbn.
  split; [done|]. split.
  - rewrite events_since_app. apply deallocations_of_failed_spawn.
  - apply lookup_delete_eq.
Qed.

Lemma spawned_returns (k : kind) (io_object : option Z) (thread_obj : Z)
    (max_irql : Z) (fn : callable) (args : list Z) (w : world) :
  handed_to_thread w
    (constructed
       (spawned k io_object (impl_returns thread_obj) max_irql fn args w))
    (ArgTuple fn args).
Proof.
  unfold handed_to_thread, spawned, constructed; cbn.
  destruct (ptr_nonnull thread_obj); cbn;
    (split; [rewrite events_since_app; apply deallocations_of_spawn|]);
    rewrite lookup_insert_eq; by eexists.
Qed.

(** C2 (as amended): when [create_thread_impl] throws, the spawning call
    keeps the record and frees it exactly once, and the exception leaves
    the constructor, so that no wrapper comes into being.  When
    [create_thread_impl] returns, be it a null object, the spawning call
    frees nothing: the record stays allocated for the trampoline. *)
Theorem failed_creation_frees_record (e : thrown) (thread_obj : Z)
    (io_obj max_irql : Z) (fn : callable) (args : list Z) (w : world) :
  freed_by_spawn w
    (system_thread_with_irql (impl_throws e) max_irql fn args w) e
  /\ freed_by_spawn w
       (io_thread_with_irql (impl_throws e) io_obj max_irql fn args w) e
  /\ handed_to_thread w
       (system_thread_with_irql (impl_returns thread_obj) max_irql fn args w)
       (ArgTuple fn args)
  /\ handed_to_thread w
       (io_thread_with_irql (impl_returns thread_obj) io_obj max_irql
          fn args w)
       (ArgTuple fn args).
Proof.
  rewrite !system_thread_with_irql_run, !io_thread_with_irql_run.
  repeat split; try apply spawned_throws; apply spawned_returns.
Qed.

(** C2 (as worded) fails on a concrete spawn whichever way a failure of
    [create_thread_impl] shows: if it throws, the constructor yields no
    wrapper; if it returns a null object, the record is not freed by the
    spawning call (and the assertion of the constructor fails). *)
Lemma failed_spawn_counterexample :
  let w := World ∅ 1 [] in
  let fn := Callable 7 (fun _ => returns) in
  let insufficient_resources := ktl_exception (0xC000009A - 2 ^ 32) in
  let thrown_system :=
    system_thread_with_irql (impl_throws insufficient_resources)
      PASSIVE_LEVEL fn [3] w in
  let null_system :=
    system_thread_with_irql (impl_returns 0) PASSIVE_LEVEL fn [3] w in
  let thrown_io :=
    io_thread_with_irql (impl_throws insufficient_resources) 64
      PASSIVE_LEVEL fn [3] w in
  let null_io :=
    io_thread_with_irql (impl_returns 0) 64 PASSIVE_LEVEL fn [3] w in
  (~ failed_spawn_as_worded w thrown_system
   /\ thrown_system.1 = Raised insufficient_resources)
  /\ (~ failed_spawn_as_worded w null_system
      /\ deallocations 1 (events_since w null_system.2) = 0%nat)
  /\ (~ failed_spawn_as_worded w thrown_io
      /\ thrown_io.1 = Raised insufficient_resources)
  /\ (~ failed_spawn_as_worded w null_io
      /\ deallocations 1 (events_since w null_io.2) = 0%nat).
Proof.
  unfold failed_spawn_as_worded. cbn.
  repeat split; try reflexivity;
    intros ([this [Hdone _]] & Hfreed & _);
    first [discriminate Hdone | vm_compute in Hfreed; discriminate Hfreed].
Qed.

Lemma deallocations_of_trampoline (a : positive) (fn : Z) (args : list Z)
    (k : kind) (st : option Z) :
  deallocations a [Invoke fn args; Deallocate a; BeforeExit k st] = 1%nat
  /\ deallocations a [Invoke fn args; BeforeExit k st; Deallocate a] = 1%nat.
Proof.
  unfold deallocations. rewrite !filter_cons, filter_nil.
  repeat case_decide; done.
Qed.

(** C4 (as amended): on a record whose callable returns, the trampoline
    of either kind returns, having invoked the callable of the record on
    the arguments of the record, passed the result of [make_call]
    ([STATUS_SUCCESS] for [system_thread], nothing for [io_thread]) to
    [before_exit], and destroyed the record exactly once.  The record goes
    with the guard of [invoke_with_unpacked_args]: before [before_exit] is
    called, except for [system_thread] under a parameter lifetime that
    lasts to the end of the full expression.  If the callable throws, the
    trampoline does not return. *)
Theorem trampoline_destroys_record_once (lifetime : parameter_lifetime)
    (k : kind) (a : positive) (p : pool) (fn : callable) (args : list Z)
    (w : world) :
  heap w !! a = Some (Block p (ArgTuple fn args)) ->
  (fn_body fn args = returns ->
     exists w',
       invoke_in_thread lifetime k (Some a) w = (Done tt, w')
       /\ heap w' = delete a (heap w)
       /\ deallocations a (events_since w w') = 1%nat
       /\ events_since w w'
          = match k, lifetime with
            | io_thread, _ =>
                [Invoke (fn_id fn) args; Deallocate a;
                 BeforeExit io_thread None]
            | system_thread, until_return =>
                [Invoke (fn_id fn) args; Deallocate a;
                 BeforeExit system_thread (Some STATUS_SUCCESS)]
            | system_thread, until_full_expression =>
                [Invoke (fn_id fn) args;
                 BeforeExit system_thread (Some STATUS_SUCCESS);
                 Deallocate a]
            end)
  /\ (forall e, fn_body fn args = throws e ->
        invoke_in_thread lifetime k (Some a) w
        = (Fatal, {| heap := heap w; next := next w;
                     trace := trace w ++ [Invoke (fn_id fn) args] |})).
Proof.
  intros Hrecord. split.
  - intros Hreturns.
    destruct k, lifetime; run_trampoline;
      rewrite Hrecord; cbn; rewrite Hreturns; cbn;
      rewrite <- !app_assoc; cbn;
      eexists; (split; [reflexivity|]); cbn;
      rewrite events_since_app;
      (split; [reflexivity|]);
      (split; [apply deallocations_of_trampoline | reflexivity]).
  - intros e Hthrows.
    destruct k, lifetime; run_trampoline;
      rewrite Hrecord; cbn; by rewrite Hthrows.
Qed.

Lemma trampoline_destroys_record_once_witness :
  let fn := Callable 7 (fun _ => returns) in
  let w := World {[ 1%positive := Block paged_new (ArgTuple fn [3]) ]} 2 [] in
  heap w !! 1%positive = Some (Block paged_new (ArgTuple fn [3]))
  /\ fn_body fn [3] = returns
  /\ exists w',
       invoke_in_thread until_return system_thread (Some 1%positive) w
       = (Done tt, w')
       /\ heap w' = delete 1%positive (heap w)
       /\ deallocations 1 (events_since w w') = 1%nat
       /\ events_since w w'
          = [Invoke 7 [3]; Deallocate 1;
             BeforeExit system_thread (Some STATUS_SUCCESS)].
Proof.
  intros fn w.
  split; [reflexivity|]. split; [reflexivity|].
  destruct (trampoline_destroys_record_once until_return system_thread
              1 paged_new fn [3] w) as [Hreturns _].
  - reflexivity.
  - apply Hreturns. reflexivity.
Defined.

(** A spawn that succeeds, followed by the routine it registered run on
    the record it registered: one allocation, one deallocation. *)
Example spawn_then_run :
  let fn := Callable 7 (fun _ => returns) in
  let r := system_thread_with_irql (impl_returns 99) DISPATCH_LEVEL fn [3]
             (World ∅ 1 []) in
  r.1 = Done (ThreadBase 99)
  /\ trace (run_thread_routine until_return system_thread
              (Some 1%positive) r.2).2
     = [Allocate non_paged_new 1;
        CreateThreadImpl system_thread None (Some 1%positive);
        Invoke 7 [3]; Deallocate 1;
        BeforeExit system_thread (Some STATUS_SUCCESS)]
  /\ heap (run_thread_routine until_return system_thread
             (Some 1%positive) r.2).2 = ∅.
Proof. repeat split. Qed.

(** C4 (as worded) fails for [io_thread]: whatever the lifetime of a
    parameter, the record is destroyed before [before_exit] is called, not
    after. *)
Lemma trampoline_order_counterexample :
  let fn := Callable 7 (fun _ => returns) in
  let w := World {[ 1%positive := Block paged_new (ArgTuple fn [3]) ]} 2 [] in
  (trace (invoke_in_thread until_return io_thread (Some 1%positive) w).2
   = [Invoke 7 [3]; Deallocate 1; BeforeExit io_thread None]
   /\ ~ destroyed_after_before_exit io_thread None 1
          (trace (invoke_in_thread until_return io_thread
                    (Some 1%positive) w).2))
  /\ (trace (invoke_in_thread until_full_expression io_thread
               (Some 1%positive) w).2
      = [Invoke 7 [3]; Deallocate 1; BeforeExit io_thread None]
      /\ ~ destroyed_after_before_exit io_thread None 1
             (trace (invoke_in_thread until_full_expression io_thread
                       (Some 1%positive) w).2)).
Proof.
  unfold destroyed_after_before_exit.
  repeat split; try reflexivity; vm_compute; discriminate.
Qed.

End ThreadFacts.

(* ===================================================================== *)
(** * Further properties of atomic.hpp                                    *)
(* ===================================================================== *)

Section AtomicMore.
Import Atomic.

(** Exchanging a pointer in and then exchanging the returned pointer back
    gives the new pointer back and restores every cell. *)
Theorem exchange_pointer_round_trip
    (slot : N) (new_ptr pre : Z) (m : memory) :
  cells m !! slot = Some pre ->
  exists m1 m2,
    interlocked_exchange_pointer slot new_ptr m = Some (pre, m1)
    /\ interlocked_exchange_pointer slot pre m1 = Some (new_ptr, m2)
    /\ cells m2 = cells m.
Proof.
  intros Hslot.
  exists (store slot new_ptr m), (store slot pre (store slot new_ptr m)).
  unfold interlocked_exchange_pointer, InterlockedExchangePointer.
  rewrite Hslot. cbn [mbind option_bind]. split; [done|].
  simpl. rewrite lookup_insert_eq. cbn [mbind option_bind].
  split; [done|].
  simpl. rewrite insert_insert_eq. by apply insert_id.
Qed.

Lemma exchange_pointer_round_trip_witness :
  let m := {| cells := {[ 8%N := 4096 ]}; journal := [] |} in
  cells m !! 8%N = Some 4096
  /\ exists m1 m2,
       interlocked_exchange_pointer 8%N 8192 m = Some (4096, m1)
       /\ interlocked_exchange_pointer 8%N 4096 m1 = Some (8192, m2)
       /\ cells m2 = cells m.
Proof.
  intros m. split; [reflexivity|].
  apply (exchange_pointer_round_trip 8%N 8192 4096 m). reflexivity.
Defined.

(** The memory [interlocked_swap] leaves, for two flags that can be
    read. *)
Lemma interlocked_swap_run (lhs rhs : N) (x y : bool) (m : memory) :
  read_bool lhs m = Some x ->
  read_bool rhs m = Some y ->
  interlocked_swap lhs rhs m
  = Some (store rhs (bool_to_char x) (store lhs (bool_to_char y) m)).
Proof.
  intros Hl Hr.
  assert (Hr1 : read_bool rhs (store lhs (bool_to_char y) m) = Some y).
  { destruct (decide (lhs = rhs)) as [->|Hne].
    - apply read_bool_store_eq.
    - by rewrite read_bool_store_ne. }
  unfold interlocked_swap. rewrite Hl, Hr.
  cbn [mbind option_bind].
  rewrite (interlocked_exchange_read lhs x y m Hl).
  cbn [mbind option_bind snd].
  by rewrite (interlocked_exchange_read rhs y x _ Hr1).
Qed.

Lemma read_bool_swapped (lhs rhs : N) (x y : bool) (m : memory) :
  (lhs = rhs -> x = y) ->
  read_bool lhs (store rhs (bool_to_char x) (store lhs (bool_to_char y) m))
  = Some y
  /\ read_bool rhs (store rhs (bool_to_char x) (store lhs (bool_to_char y) m))
     = Some x.
Proof.
  intros Halias. split; [|apply read_bool_store_eq].
  destruct (decide (lhs = rhs)) as [Heq|Hne].
  - rewrite <- Heq, read_bool_store_eq. by rewrite (Halias Heq).
  - rewrite read_bool_store_ne by done. apply read_bool_store_eq.
Qed.

(** Two [interlocked_swap]s in a row give both flags their first values
    back. *)
Theorem interlocked_swap_twice (lhs rhs : N) (x y : bool) (m : memory) :
  read_bool lhs m = Some x ->
  read_bool rhs m = Some y ->
  exists m1 m2,
    interlocked_swap lhs rhs m = Some m1
    /\ interlocked_swap lhs rhs m1 = Some m2
    /\ read_bool lhs m2 = Some x
    /\ read_bool rhs m2 = Some y.
Proof.
  intros Hl Hr.
  assert (Halias : lhs = rhs -> x = y) by (intros ->; congruence).
  destruct (read_bool_swapped lhs rhs x y m Halias) as [Hl1 Hr1].
  destruct (read_bool_swapped lhs rhs y x
              (store rhs (bool_to_char x) (store lhs (bool_to_char y) m)))
    as [Hl2 Hr2]; [by intros Heq; rewrite (Halias Heq)|].
  eexists _, _.
  split; [by apply interlocked_swap_run|].
  split; [by apply interlocked_swap_run|].
  by split.
Qed.

Lemma interlocked_swap_twice_witness :
  let m := {| cells := {[ 1%N := 1; 2%N := 0 ]}; journal := [] |} in
  read_bool 1%N m = Some true /\ read_bool 2%N m = Some false
  /\ exists m1 m2,
       interlocked_swap 1%N 2%N m = Some m1
       /\ interlocked_swap 1%N 2%N m1 = Some m2
       /\ read_bool 1%N m2 = Some true
       /\ read_bool 2%N m2 = Some false.
Proof.
  intros m. split; [reflexivity|]. split; [reflexivity|].
  apply (interlocked_swap_twice 1%N 2%N true false m); reflexivity.
Defined.

(** [interlocked_swap] reads and writes the two flags it is given and no
    other cell; it creates no cell. *)
Theorem interlocked_swap_frame (lhs rhs : N) (x y : bool) (m : memory) :
  read_bool lhs m = Some x ->
  read_bool rhs m = Some y ->
  exists m',
    interlocked_swap lhs rhs m = Some m'
    /\ (forall l, l <> lhs -> l <> rhs -> cells m' !! l = cells m !! l)
    /\ dom (cells m') = dom (cells m).
Proof.
  intros Hl Hr. eexists. split; [by apply interlocked_swap_run|].
  split.
  - intros l Hnl Hnr. simpl. by rewrite !lookup_insert_ne.
  - simpl.
    assert (Hdl : is_Some (cells m !! lhs)).
    { unfold read_bool in Hl. destruct (cells m !! lhs); [by eexists | done]. }
    assert (Hdr : is_Some (cells m !! rhs)).
    { unfold read_bool in Hr. destruct (cells m !! rhs); [by eexists | done]. }
    rewrite dom_insert_lookup_L.
    + by apply dom_insert_lookup_L.
    + destruct (decide (lhs = rhs)) as [->|Hne].
      * rewrite lookup_insert_eq. by eexists.
      * by rewrite lookup_insert_ne.
Qed.

Lemma interlocked_swap_frame_witness :
  let m := {| cells := {[ 1%N := 1; 2%N := 0; 3%N := 1 ]}; journal := [] |} in
  read_bool 1%N m = Some true /\ read_bool 2%N m = Some false
  /\ exists m',
       interlocked_swap 1%N 2%N m = Some m'
       /\ (forall l, l <> 1%N -> l <> 2%N -> cells m' !! l = cells m !! l)
       /\ dom (cells m') = dom (cells m).
Proof.
  intros m. split; [reflexivity|]. split; [reflexivity|].
  apply (interlocked_swap_frame 1%N 2%N true false m); reflexivity.
Defined.

(** The retry of a compare-exchange: a call whose [expected] is not what
    the slot holds changes nothing and returns what the slot holds; the
    call repeated with that value as [expected] stores [new_ptr]. *)
Theorem compare_exchange_retry
    (slot : N) (new_ptr expected pre : Z) (m : memory) :
  cells m !! slot = Some pre ->
  pre <> expected ->
  exists m',
    interlocked_compare_exchange_pointer slot new_ptr expected m
    = Some (pre, m)
    /\ interlocked_compare_exchange_pointer slot new_ptr pre m
       = Some (pre, m')
    /\ cells m' !! slot = Some new_ptr
    /\ (forall l, l <> slot -> cells m' !! l = cells m !! l).
Proof.
  intros Hslot Hne. exists (store slot new_ptr m).
  unfold interlocked_compare_exchange_pointer,
    InterlockedCompareExchangePointer.
  rewrite Hslot. cbn [mbind option_bind].
  rewrite (bool_decide_eq_false_2 _ Hne).
  rewrite (bool_decide_eq_true_2 (pre = pre) eq_refl).
  repeat split.
  - apply lookup_insert_eq.
  - intros l Hl. simpl. by rewrite lookup_insert_ne.
Qed.

Lemma compare_exchange_retry_witness :
  let m := {| cells := {[ 8%N := 4096 ]}; journal := [] |} in
  cells m !! 8%N = Some 4096 /\ 4096 <> 12288
  /\ exists m',
       interlocked_compare_exchange_pointer 8%N 8192 12288 m = Some (4096, m)
       /\ interlocked_compare_exchange_pointer 8%N 8192 4096 m
          = Some (4096, m')
       /\ cells m' !! 8%N = Some 8192
       /\ (forall l, l <> 8%N -> cells m' !! l = cells m !! l).
Proof.
  intros m. split; [reflexivity|]. split; [lia|].
  apply (compare_exchange_retry 8%N 8192 12288 4096 m);
    [reflexivity | lia].
Defined.

End AtomicMore.

(* ===================================================================== *)
(** * Further properties of this_thread                                   *)
(* ===================================================================== *)

Section ThisThreadMore.
Import ThisThread.

Variable to_native_100ns_duration : Z -> Z.
Variable to_microseconds : Z -> Z.

Lemma to_int64_id (z : Z) : - 2 ^ 63 <= z < 2 ^ 63 -> to_int64 z = z.
Proof.
  intros Hz. unfold to_int64.
  rewrite Z.mod_small by lia. lia.
Qed.

(** [sleep_for] hands the kernel the negated count of 100ns units, for
    any count whose negation is a 64-bit integer: a positive duration gives
    a negative interval (relative time), a duration of zero the interval 0,
    and a negative duration a positive interval. *)
Theorem sleep_for_negates (sleep_duration : Z) :
  - 2 ^ 63 < to_native_100ns_duration sleep_duration <= 2 ^ 63 ->
  exists interval,
    sleep_for to_native_100ns_duration sleep_duration
    = [KeDelayExecutionThread interval]
    /\ interval = - to_native_100ns_duration sleep_duration
    /\ (0 < to_native_100ns_duration sleep_duration <-> interval < 0)
    /\ (to_native_100ns_duration sleep_duration < 0 <-> 0 < interval).
Proof.
  intros Hrange. eexists. unfold sleep_for.
  rewrite to_int64_id by lia.
  split; [reflexivity|]. lia.
Qed.

(** [sleep_until] never asks for a wait until an absolute time: if the
    remaining duration, which is positive, converts to a count between 0
    and 2^63, every interval handed to the kernel is at most 0. *)
Theorem sleep_until_waits_relative (now sleep_time : Z) :
  (now < sleep_time ->
   0 <= to_native_100ns_duration (sleep_time - now) <= 2 ^ 63) ->
  forall c, c ∈ sleep_until to_native_100ns_duration now sleep_time ->
    exists interval, c = KeDelayExecutionThread interval /\ interval <= 0.
Proof.
  intros Hconv c. unfold sleep_until.
  destruct (Z.leb_spec sleep_time now) as [Hle|Hlt].
  - intros Hin. by apply elem_of_nil in Hin.
  - unfold sleep_for. intros Hin. apply list_elem_of_singleton in Hin.
    subst c. eexists. split; [reflexivity|].
    specialize (Hconv Hlt). rewrite to_int64_id by lia. lia.
Qed.

(** [stall_for] hands the kernel the count of microseconds reduced to 32
    bits: always within [0, 2^32), the count itself when that is in the
    range, and the same for two counts that differ by a multiple of
    2^32. *)
Theorem stall_for_truncates (stall_duration : Z) :
  exists us,
    stall_for to_microseconds stall_duration
    = [KeStallExecutionProcessor us]
    /\ 0 <= us < 2 ^ 32
    /\ (0 <= to_microseconds stall_duration < 2 ^ 32 ->
        us = to_microseconds stall_duration)
    /\ (forall other k,
          to_microseconds other
          = to_microseconds stall_duration + k * 2 ^ 32 ->
          stall_for to_microseconds other
          = stall_for to_microseconds stall_duration).
Proof.
  eexists. unfold stall_for, to_unsigned_long.
  split; [reflexivity|]. split; [apply Z.mod_pos_bound; lia|].
  split.
  - intros Hrange. by apply Z.mod_small.
  - intros other k Hk. rewrite Hk. by rewrite Z.mod_add by lia.
Qed.

End ThisThreadMore.

Lemma sleep_for_negates_witness :
  - 2 ^ 63 < (fun d => 10 * d) 3 <= 2 ^ 63
  /\ exists interval,
       ThisThread.sleep_for (fun d => 10 * d) 3
       = [ThisThread.KeDelayExecutionThread interval]
       /\ interval = - (fun d => 10 * d) 3
       /\ (0 < (fun d => 10 * d) 3 <-> interval < 0)
       /\ ((fun d => 10 * d) 3 < 0 <-> 0 < interval).
Proof.
  split; [lia|].
  apply (sleep_for_negates (fun d => 10 * d) 3). lia.
Defined.

Lemma sleep_until_waits_relative_witness :
  (10 < 12 -> 0 <= (fun d => 10 * d) (12 - 10) <= 2 ^ 63)
  /\ ThisThread.KeDelayExecutionThread (-20)
     ∈ ThisThread.sleep_until (fun d => 10 * d) 10 12
  /\ exists interval,
       ThisThread.KeDelayExecutionThread (-20)
       = ThisThread.KeDelayExecutionThread interval
       /\ interval <= 0.
Proof.
  split; [lia|]. split; [apply list_elem_of_singleton; reflexivity|].
  apply (sleep_until_waits_relative (fun d => 10 * d) 10 12).
  - lia.
  - apply list_elem_of_singleton. reflexivity.
Defined.

Lemma stall_for_truncates_witness :
  exists us,
    ThisThread.stall_for (fun d => d) (2 ^ 32 + 5)
    = [ThisThread.KeStallExecutionProcessor us]
    /\ 0 <= us < 2 ^ 32
    /\ (0 <= (fun d => d) (2 ^ 32 + 5) < 2 ^ 32 ->
        us = (fun d => d) (2 ^ 32 + 5))
    /\ (forall other k,
          (fun d => d) other = (fun d => d) (2 ^ 32 + 5) + k * 2 ^ 32 ->
          ThisThread.stall_for (fun d => d) other
          = ThisThread.stall_for (fun d => d) (2 ^ 32 + 5)).
Proof.
  apply (stall_for_truncates (fun d => d) (2 ^ 32 + 5)).
Defined.

(* ===================================================================== *)
(** * Further properties of the worker-thread engine                      *)
(* ===================================================================== *)

Section ThreadMore.
Import Thread.

Ltac run_engine :=
  unfold invoke_in_thread, invoke_with_unpacked_args, at_return,
    at_full_expression_end, accessor_before_exit, accessor_make_call,
    guarded_system_thread_make_call, system_thread_make_call,
    worker_thread_make_call, dereference, noexcept,
    unique_ptr_destroy, unique_ptr_get, delete_, emit, try, throw, fatal,
    mbind, M_bind, bind, mret, M_ret, ret;
  cbn.

(** The trampoline on a record whose callable returns. *)
Lemma invoke_in_thread_returns (lifetime : parameter_lifetime) (k : kind)
    (a : positive) (p : pool) (fn : callable) (args : list Z) (w : world) :
  heap w !! a = Some (Block p (ArgTuple fn args)) ->
  fn_body fn args = returns ->
  invoke_in_thread lifetime k (Some a) w
  = (Done tt, {| heap := delete a (heap w); next := next w;
                 trace := trace w ++ trampoline_events lifetime k a fn args |}).
Proof.
  intros Hrecord Hreturns.
  destruct k, lifetime; run_engine;
    rewrite Hrecord; cbn; rewrite Hreturns; cbn;
    by rewrite <- !app_assoc.
Qed.

(** The trampoline on a record whose callable throws. *)
Lemma invoke_in_thread_throws (lifetime : parameter_lifetime) (k : kind)
    (a : positive) (p : pool) (fn : callable) (args : list Z) (e : thrown)
    (w : world) :
  heap w !! a = Some (Block p (ArgTuple fn args)) ->
  fn_body fn args = throws e ->
  invoke_in_thread lifetime k (Some a) w
  = (Fatal, {| heap := heap w; next := next w;
               trace := trace w ++ [Invoke (fn_id fn) args] |}).
Proof.
  intros Hrecord Hthrows.
  destruct k, lifetime; run_engine;
    rewrite Hrecord; cbn; by rewrite Hthrows.
Qed.

Lemma system_thread_default_run (impl : impl_behaviour) (fn : callable)
    (args : list Z) (w : world) :
  system_thread_default impl fn args w
  = constructed (spawned system_thread None impl PASSIVE_LEVEL fn args w).
Proof.
  rewrite <- system_thread_with_irql_run. reflexivity.
Qed.

Lemma io_thread_default_run (impl : impl_behaviour) (io_obj : Z)
    (fn : callable) (args : list Z) (w : world) :
  io_thread_default impl io_obj fn args w
  = constructed
      (spawned io_thread (Some io_obj) impl PASSIVE_LEVEL fn args w).
Proof.
  rewrite <- io_thread_with_irql_run. reflexivity.
Qed.

Lemma spawned_quiet (k : kind) (io_object : option Z) (impl : impl_behaviour)
    (max_irql : Z) (fn : callable) (args : list Z) (w : world) :
  filter is_thread_event
    (events_since w
       (constructed (spawned k io_object impl max_irql fn args w)).2) = [].
Proof.
  rewrite constructed_world. unfold spawned.
  destruct impl; cbn; by rewrite events_since_app.
Qed.

(** No constructor runs the callable or an exit hook: whatever
    [create_thread_impl] does, the events of a constructor (of
    [system_thread], [guarded_system_thread] or [io_thread], with or
    without hint) contain no call of the callable and no [before_exit]. *)
Theorem constructors_do_not_call (impl : impl_behaviour)
    (io_obj max_irql : Z) (fn : callable) (args : list Z) (w : world) :
  Forall
    (fun r : outcome thread_base * world =>
       filter is_thread_event (events_since w r.2) = [])
    [system_thread_with_irql impl max_irql fn args w;
     system_thread_default impl fn args w;
     guarded_system_thread_with_irql impl max_irql fn args w;
     guarded_system_thread_default impl fn args w;
     io_thread_with_irql impl io_obj max_irql fn args w;
     io_thread_default impl io_obj fn args w].
Proof.
  unfold guarded_system_thread_with_irql, guarded_system_thread_default.
  rewrite !system_thread_with_irql_run, !system_thread_default_run,
    io_thread_with_irql_run, io_thread_default_run.
  repeat constructor; apply spawned_quiet.
Qed.

Lemma spawned_frame (k : kind) (io_object : option Z) (impl : impl_behaviour)
    (max_irql : Z) (fn : callable) (args : list Z) (w : world)
    (a : positive) :
  a <> next w ->
  heap (constructed (spawned k io_object impl max_irql fn args w)).2 !! a
  = heap w !! a.
Proof.
  intros Hne. rewrite constructed_world. unfold spawned.
  destruct impl; cbn.
  - by rewrite lookup_insert_ne.
  - rewrite lookup_delete_ne by done. by rewrite lookup_insert_ne.
Qed.

(** A spawn leaves every record other than its own as it was, whether
    [create_thread_impl] returns or throws. *)
Theorem spawn_keeps_other_records (impl : impl_behaviour)
    (io_obj max_irql : Z) (fn : callable) (args : list Z) (w : world)
    (a : positive) :
  a <> next w ->
  heap (system_thread_with_irql impl max_irql fn args w).2 !! a = heap w !! a
  /\ heap (system_thread_default impl fn args w).2 !! a = heap w !! a
  /\ heap (io_thread_with_irql impl io_obj max_irql fn args w).2 !! a
     = heap w !! a
  /\ heap (io_thread_default impl io_obj fn args w).2 !! a = heap w !! a.
Proof.
  intros Hne.
  rewrite system_thread_with_irql_run, system_thread_default_run,
    io_thread_with_irql_run, io_thread_default_run.
  repeat split; by apply spawned_frame.
Qed.

Lemma spawn_keeps_other_records_witness :
  let fn := Callable 7 (fun _ => returns) in
  let w := World {[ 1%positive := Block paged_new (ArgTuple fn []) ]} 2 [] in
  1%positive <> next w
  /\ heap (system_thread_with_irql (impl_throws (foreign_object 0)) 2 fn [3]
             w).2 !! 1%positive = heap w !! 1%positive
  /\ heap (system_thread_default (impl_throws (foreign_object 0)) fn [3]
             w).2 !! 1%positive = heap w !! 1%positive
  /\ heap (io_thread_with_irql (impl_throws (foreign_object 0)) 64 2 fn [3]
             w).2 !! 1%positive = heap w !! 1%positive
  /\ heap (io_thread_default (impl_throws (foreign_object 0)) 64 fn [3]
             w).2 !! 1%positive = heap w !! 1%positive.
Proof.
  intros fn w. split; [discriminate|].
  apply (spawn_keeps_other_records (impl_throws (foreign_object 0)) 64 2
           fn [3] w 1%positive).
  discriminate.
Defined.

Lemma deallocations_of_life (lifetime : parameter_lifetime) (k : kind)
    (io_object : option Z) (p : pool) (a : positive) (fn : callable)
    (args : list Z) :
  deallocations a
    (Allocate p a :: CreateThreadImpl k io_object (Some a)
       :: trampoline_events lifetime k a fn args) = 1%nat.
Proof.
  unfold deallocations, trampoline_events.
  destruct k, lifetime; rewrite !filter_cons, filter_nil;
    repeat case_decide; done.
Qed.

Lemma spawned_then_ran (lifetime : parameter_lifetime) (k : kind)
    (io_object : option Z) (thread_obj max_irql : Z) (fn : callable)
    (args : list Z) (w : world) :
  heap w !! next w = None ->
  fn_body fn args = returns ->
  exists w',
    run_thread_routine lifetime (get_thread_routine k) (Some (next w))
      (spawned k io_object (impl_returns thread_obj) max_irql fn args w).2
    = (Done tt, w')
    /\ heap w' = heap w
    /\ events_since w w'
       = Allocate (pool_for max_irql) (next w)
         :: CreateThreadImpl k io_object (Some (next w))
         :: trampoline_events lifetime k (next w) fn args
    /\ deallocations (next w) (events_since w w') = 1%nat.
Proof.
  intros Hfresh Hreturns.
  unfold run_thread_routine, get_thread_routine, spawned. cbn.
  erewrite invoke_in_thread_returns;
    [| cbn; apply lookup_insert_eq | exact Hreturns].
  eexists. split; [reflexivity|]. cbn.
  rewrite <- app_assoc, events_since_app. cbn.
  split; [by apply delete_insert_id|].
  split; [reflexivity|].
  exact (deallocations_of_life lifetime k io_object (pool_for max_irql)
           (next w) fn args).
Qed.

(** A spawn that succeeds, followed by the run of the routine it
    registered on the record it registered: if the callable returns, the
    thread returns, the callable has been called once on the arguments
    given to the constructor, the record has been freed exactly once and
    the heap is what it was before the spawn. *)
Theorem spawn_then_thread_frees_record (lifetime : parameter_lifetime)
    (thread_obj io_obj max_irql : Z) (fn : callable) (args : list Z)
    (w : world) :
  heap w !! next w = None ->
  fn_body fn args = returns ->
  (exists w',
     run_thread_routine lifetime (get_thread_routine system_thread)
       (Some (next w))
       (system_thread_create_thread (impl_returns thread_obj) max_irql
          fn args w).2
     = (Done tt, w')
     /\ heap w' = heap w
     /\ events_since w w'
        = Allocate (pool_for max_irql) (next w)
          :: CreateThreadImpl system_thread None (Some (next w))
          :: trampoline_events lifetime system_thread (next w) fn args
     /\ deallocations (next w) (events_since w w') = 1%nat)
  /\ (exists w',
        run_thread_routine lifetime (get_thread_routine io_thread)
          (Some (next w))
          (io_thread_create_thread (impl_returns thread_obj) io_obj max_irql
             fn args w).2
        = (Done tt, w')
        /\ heap w' = heap w
        /\ events_since w w'
           = Allocate (pool_for max_irql) (next w)
             :: CreateThreadImpl io_thread (Some io_obj) (Some (next w))
             :: trampoline_events lifetime io_thread (next w) fn args
        /\ deallocations (next w) (events_since w w') = 1%nat).
Proof.
  intros Hfresh Hreturns.
  rewrite system_thread_create_thread_run, io_thread_create_thread_run.
  split; by apply spawned_then_ran.
Qed.

Lemma spawn_then_thread_frees_record_witness :
  let fn := Callable 7 (fun _ => returns) in
  let w := World ∅ 1 [] in
  heap w !! next w = None /\ fn_body fn [3] = returns
  /\ exists w',
       run_thread_routine until_return (get_thread_routine system_thread)
         (Some (next w))
         (system_thread_create_thread (impl_returns 99) 2 fn [3] w).2
       = (Done tt, w')
       /\ heap w' = heap w
       /\ events_since w w'
          = Allocate (pool_for 2) (next w)
            :: CreateThreadImpl system_thread None (Some (next w))
            :: trampoline_events until_return system_thread (next w) fn [3]
       /\ deallocations (next w) (events_since w w') = 1%nat.
Proof.
  intros fn w. split; [reflexivity|]. split; [reflexivity|].
  apply (proj1 (spawn_then_thread_frees_record until_return 99 64 2 fn [3] w
                  eq_refl eq_refl)).
Defined.

(** [guarded_system_thread::make_call] and [system_thread::make_call]
    leave the same world in every case and agree when the callable
    returns; when the callable throws, the plain one lets the exception
    out and the guarded one returns a status. *)
Theorem guarded_extends_system (fn : callable) (args : list Z) (w : world) :
  (guarded_system_thread_make_call fn args w).2
  = (system_thread_make_call fn args w).2
  /\ (fn_body fn args = returns ->
      guarded_system_thread_make_call fn args w
      = system_thread_make_call fn args w)
  /\ (forall e, fn_body fn args = throws e ->
        (system_thread_make_call fn args w).1 = Raised e
        /\ exists status,
             (guarded_system_thread_make_call fn args w).1 = Done status).
Proof.
  run_engine. destruct (fn_body fn args) as [|[code|tag]]; cbn.
  - split; [done|]. split; [done|]. intros e He. discriminate He.
  - split; [done|]. split; [intros He; discriminate He|].
    intros e [= <-]. split; [done | by eexists].
  - split; [done|]. split; [intros He; discriminate He|].
    intros e [= <-]. split; [done | by eexists].
Qed.

Lemma guarded_extends_system_witness :
  let fn := Callable 8 (fun _ => throws (ktl_exception 5)) in
  let w := World ∅ 1 [] in
  fn_body fn [] = throws (ktl_exception 5)
  /\ (system_thread_make_call fn [] w).1 = Raised (ktl_exception 5)
  /\ exists status, (guarded_system_thread_make_call fn [] w).1 = Done status.
Proof.
  intros fn w. split; [reflexivity|].
  apply (proj2 (proj2 (guarded_extends_system fn [] w))
           (ktl_exception 5)).
  reflexivity.
Defined.

(** The status of [guarded_system_thread::make_call] is [STATUS_SUCCESS]
    exactly when the callable returned or threw a [ktl::exception] whose
    code is [STATUS_SUCCESS]: any other status tells of an exception, and
    an exception that carries the success code is not told from a
    return. *)
Theorem guarded_status_success (fn : callable) (args : list Z) (w : world) :
  (guarded_system_thread_make_call fn args w).1 = Done STATUS_SUCCESS
  <-> fn_body fn args = returns
      \/ fn_body fn args = throws (ktl_exception STATUS_SUCCESS).
Proof.
  run_engine. destruct (fn_body fn args) as [|[code|tag]]; cbn.
  - split; [by left | done].
  - split.
    + intros [= ->]. by right.
    + intros [Hr|[= ->]]; [discriminate | done].
  - split.
    + intros [=].
    + intros [Hr|Ht]; discriminate.
Qed.

Lemma guarded_make_call_done (fn : callable) (args : list Z) (w : world) :
  exists status, (guarded_system_thread_make_call fn args w).1 = Done status.
Proof.
  run_engine. destruct (fn_body fn args) as [|[code|tag]]; by eexists.
Qed.

(** A [guarded_system_thread] is spawned by the constructor of
    [system_thread], which registers the trampoline of
    [worker_thread<system_thread>].  When the callable throws, that
    trampoline ends the program after the call, with no [before_exit] and
    the record still allocated, although
    [guarded_system_thread::make_call] on the same callable returns a
    status. *)
Theorem guarded_spawn_runs_plain_make_call (lifetime : parameter_lifetime)
    (thread_obj max_irql : Z) (fn : callable) (args : list Z) (e : thrown)
    (w : world) :
  thread_obj <> 0 ->
  fn_body fn args = throws e ->
  exists this w1,
    guarded_system_thread_with_irql (impl_returns thread_obj) max_irql
      fn args w = (Done this, w1)
    /\ events_since w w1
       = [Allocate (pool_for max_irql) (next w);
          CreateThreadImpl (get_thread_routine system_thread) None
            (Some (next w))]
    /\ run_thread_routine lifetime (get_thread_routine system_thread)
         (Some (next w)) w1
       = (Fatal, {| heap := heap w1; next := next w1;
                    trace := trace w1 ++ [Invoke (fn_id fn) args] |})
    /\ is_Some (heap w1 !! next w)
    /\ exists status,
         (guarded_system_thread_make_call fn args w1).1 = Done status.
Proof.
  intros Hobj Hthrows.
  unfold guarded_system_thread_with_irql.
  rewrite system_thread_with_irql_run. unfold spawned, constructed.
  assert (Hnonnull : ptr_nonnull thread_obj = true).
  { unfold ptr_nonnull. by rewrite (proj2 (Z.eqb_neq thread_obj 0) Hobj). }
  rewrite Hnonnull. eexists _, _. split; [reflexivity|].
  split; [apply events_since_app|].
  split.
  - unfold run_thread_routine, get_thread_routine.
    erewrite invoke_in_thread_throws;
      [reflexivity | cbn; apply lookup_insert_eq | exact Hthrows].
  - cbn. rewrite lookup_insert_eq. split; [by eexists|].
    apply guarded_make_call_done.
Qed.

Lemma guarded_spawn_runs_plain_make_call_witness :
  let fn := Callable 8 (fun _ => throws (ktl_exception 5)) in
  let w := World ∅ 1 [] in
  99 <> 0 /\ fn_body fn [3] = throws (ktl_exception 5)
  /\ exists this w1,
       guarded_system_thread_with_irql (impl_returns 99) 0 fn [3] w
       = (Done this, w1)
       /\ events_since w w1
          = [Allocate (pool_for 0) (next w);
             CreateThreadImpl (get_thread_routine system_thread) None
               (Some (next w))]
       /\ run_thread_routine until_return (get_thread_routine system_thread)
            (Some (next w)) w1
          = (Fatal, {| heap := heap w1; next := next w1;
                       trace := trace w1 ++ [Invoke (fn_id fn) [3]] |})
       /\ is_Some (heap w1 !! next w)
       /\ exists status,
            (guarded_system_thread_make_call fn [3] w1).1 = Done status.
Proof.
  intros fn w. split; [lia|]. split; [reflexivity|].
  apply (guarded_spawn_runs_plain_make_call until_return 99 0 fn [3]
           (ktl_exception 5) w); [lia | reflexivity].
Defined.

Lemma constructed_done (k : kind) (io_object : option Z)
    (impl : impl_behaviour) (max_irql : Z) (fn : callable) (args : list Z)
    (w : world) (this : thread_base) :
  (exists w',
     constructed (spawned k io_object impl max_irql fn args w)
     = (Done this, w'))
  <-> impl = impl_returns (native_handle this) /\ native_handle this <> 0.
Proof.
  unfold spawned, constructed, ptr_nonnull, native_handle, thread_base_from.
  destruct this as [obj]. cbn. split.
  - intros [w' Hrun]. destruct impl as [thread_obj|e]; [|discriminate].
    destruct (Z.eqb_spec thread_obj 0) as [Hz|Hnz]; cbn in Hrun;
      [discriminate|].
    injection Hrun as Hobj _. by subst.
  - intros [-> Hnz].
    rewrite (proj2 (Z.eqb_neq obj 0) Hnz). cbn. by eexists.
Qed.

(** A hinted constructor returns a wrapper exactly when
    [create_thread_impl] returned an object that is not null, and the
    [native_handle] of the wrapper is that object. *)
Theorem wrapper_holds_created_object (impl : impl_behaviour)
    (io_obj max_irql : Z) (fn : callable) (args : list Z) (w : world)
    (this : thread_base) :
  ((exists w',
      system_thread_with_irql impl max_irql fn args w = (Done this, w'))
   <-> impl = impl_returns (native_handle this) /\ native_handle this <> 0)
  /\ ((exists w',
         io_thread_with_irql impl io_obj max_irql fn args w = (Done this, w'))
      <-> impl = impl_returns (native_handle this)
          /\ native_handle this <> 0).
Proof.
  rewrite system_thread_with_irql_run, io_thread_with_irql_run.
  split; apply constructed_done.
Qed.

(** C5: a thread of the exception-absorbing kind does not absorb.  A
    [guarded_system_thread] spawned on a callable that throws a
    [ktl::exception] with code 5 gets the routine of
    [worker_thread<system_thread>]; run on the record of the spawn, under
    either lifetime of the guard, that routine ends the program after the
    call of the callable: [before_exit] receives no status and the record
    stays allocated.  [guarded_system_thread::make_call], which would have
    returned the status 5 to deliver, is not on the path.  The same holds
    for a thrown object that is no [ktl::exception]. *)
Theorem guarded_thread_does_not_absorb :
  let w := World ∅ 1 [] in
  let fn := Callable 8 (fun _ => throws (ktl_exception 5)) in
  let fn' := Callable 9 (fun _ => throws (foreign_object 0)) in
  let r := guarded_system_thread_with_irql (impl_returns 99) PASSIVE_LEVEL
             fn [3] w in
  let r' := guarded_system_thread_default (impl_returns 99) fn' [3] w in
  (r.1 = Done (ThreadBase 99)
   /\ trace r.2
      = [Allocate paged_new 1;
         CreateThreadImpl (get_thread_routine system_thread) None
           (Some 1%positive)]
   /\ Forall
        (fun lifetime =>
           run_thread_routine lifetime (get_thread_routine system_thread)
             (Some 1%positive) r.2
           = (Fatal, {| heap := heap r.2; next := next r.2;
                        trace := trace r.2 ++ [Invoke 8 [3]] |}))
        [until_return; until_full_expression]
   /\ is_Some (heap r.2 !! 1%positive)
   /\ (guarded_system_thread_make_call fn [3] r.2).1 = Done 5)
  /\ (r'.1 = Done (ThreadBase 99)
      /\ Forall
           (fun lifetime =>
              run_thread_routine lifetime (get_thread_routine system_thread)
                (Some 1%positive) r'.2
              = (Fatal, {| heap := heap r'.2; next := next r'.2;
                           trace := trace r'.2 ++ [Invoke 9 [3]] |}))
           [until_return; until_full_expression]
      /\ (guarded_system_thread_make_call fn' [3] r'.2).1
         = Done STATUS_UNHANDLED_EXCEPTION).
Proof.
  cbv zeta. split.
  - split; [reflexivity|]. split; [reflexivity|].
    split; [repeat constructor|].
    split; [by eexists | reflexivity].
  - split; [reflexivity|].
    split; [repeat constructor | reflexivity].
Qed.

End ThreadMore.
